(** * categraf: the stream sending strategy and the prometheus parser

    A shallow embedding of

    - [logs/sender/stream_strategy.go]: [streamStrategy.Flush] and
      [streamStrategy.Send];
    - [parser/prometheus/parser.go]: [Parser.Parse], [HandleSummary],
      [HandleHistogram], [handleGaugeCounter], [makeLabels] and
      [getNameAndValue];

    together with the properties the specification states about them. *)

From Stdlib Require Import ZArith String Strings.Byte Floats.
From stdpp Require Import base option list gmap strings.

Open Scope Z_scope.
Open Scope string_scope.
Open Scope list_scope.

(** ** logs/sender/stream_strategy.go *)

Module Sender.

(** A [LogSource] is referenced, never owned, by the messages it produced.
    All that [Send] uses of it is its [LatencyStats] aggregator, which is
    shared by every message of the source; the aggregator is identified by
    a name so that two origins can alias the same one.  The references
    from an origin to its source and on to the aggregator are taken to be
    set. *)
Record LogSource := mkLogSource { LatencyStats : nat }.

Record Origin := mkOrigin { Origin_LogSource : LogSource }.

(** [message.Message], as far as the sender looks into it: the payload,
    the optional origin ([nil] is [None]) and the time at which the
    message entered the pipeline, from which its latency is computed. *)
Record Message := mkMessage {
  Content : list byte;
  MsgOrigin : option Origin;
  IngestionTimestamp : Z
}.

#[global] Instance LogSource_eq_dec : EqDecision LogSource.
Proof. solve_decision. Defined.
#[global] Instance Origin_eq_dec : EqDecision Origin.
Proof. solve_decision. Defined.
#[global] Instance byte_eq_dec : EqDecision byte := Byte.byte_eq_dec.
#[global] Instance Message_eq_dec : EqDecision Message.
Proof. solve_decision. Defined.

(** [context.Context], as far as [Flush] could look at it. *)
Record Context := mkContext { ctx_done : bool }.

(** A Go channel of messages, seen from the sending side: the messages
    handed to it so far (oldest first) and whether it has been closed.
    The receiving stage is taken to keep draining it, so a send on an open
    channel always completes. *)
Record Chan := mkChan { ch_buf : list Message; ch_closed : bool }.

(** The collaborators the sender package is linked against.  [error] is
    the type of non-nil Go errors; [Env] is everything outside the strategy
    that a call can observe or change: the transport behind the sink and
    the wall clock. *)
Class Runtime := {
  error : Type;
  Env : Type;
  (** [m.GetLatency()] of the message package: the time elapsed since the
      message entered the pipeline, read off the wall clock *)
  latency : Message -> Env -> Z;
  (** the classifier [shouldStopSending(err)] of the sender package *)
  shouldStopSending : error -> bool;
  (** [err.Error()], as printed by the [%v] verb *)
  Error : error -> string
}.

Section Strategy.

Context {R : Runtime}.

(** The type of the sink, [send func([]byte) error]; [None] is a [nil]
    error. *)
Definition Sink : Type := list byte -> Env -> option error * Env.

(** What the strategy does to the outside, in program order. *)
Inductive Event :=
| EvAdd (stats : nat) (latency : Z)
| EvSink (payload : list byte) (reply : option error)
| EvLog (line : string)
| EvOut (m : Message).

Record World := mkWorld {
  w_env : Env;
  w_output : Chan;
  w_trace : list Event
}.

(** A call either returns a value or panics. *)
Inductive Res (A : Type) :=
| Done (a : A) (w : World)
| Panic (reason : string) (w : World).
Arguments Done {A} a w.
Arguments Panic {A} reason w.

Definition M (A : Type) : Type := World -> Res A.

Definition ret {A} (a : A) : M A := fun w => Done a w.

Definition bind {A B} (c : M A) (k : A -> M B) : M B :=
  fun w => match c w with
           | Done a w' => k a w'
           | Panic r w' => Panic r w'
           end.

Notation "x <- c ;; k" := (bind c (fun x => k))
  (at level 100, c at next level, right associativity).
Notation "c ;;; k" := (bind c (fun _ => k))
  (at level 100, right associativity).

Definition emit (e : Event) : M unit :=
  fun w => Done tt (mkWorld (w_env w) (w_output w) (w_trace w ++ [e])).

(** [message.GetLatency()]: a reading, which changes nothing. *)
Definition GetLatency (m : Message) : M Z :=
  fun w => Done (latency m (w_env w)) w.

(** [LatencyStats.Add(d)] on the aggregator named [stats]. *)
Definition LatencyStats_Add (stats : nat) (d : Z) : M unit :=
  emit (EvAdd stats d).

(** One call of the sink. *)
Definition call_send (send : Sink) (payload : list byte) : M (option error) :=
  fun w => let '(r, env') := send payload (w_env w) in
           Done r (mkWorld env' (w_output w) (w_trace w ++ [EvSink payload r])).

(** [log.Printf("Could not send payload: %v\n", err)] *)
Definition log_line (err : error) : string :=
  "Could not send payload: " +:+ Error err +:+ String (Ascii.ascii_of_nat 10) "".

Definition log_Printf (err : error) : M unit :=
  emit (EvLog (log_line err)).

(** [outputChan <- message]; a send on a closed channel panics. *)
Definition chan_send (m : Message) : M unit :=
  fun w =>
    if ch_closed (w_output w)
    then Panic "send on closed channel" w
    else Done tt (mkWorld (w_env w)
                          (mkChan (ch_buf (w_output w) ++ [m]) (ch_closed (w_output w)))
                          (w_trace w ++ [EvOut m])).

(** How the body of a [for] loop hands control back: fall through to the
    next iteration, or [return] from the enclosing function. *)
Inductive Ctl := Next | Return.

(** [for message := range inputChan { body }], where [inputChan] is
    given by the messages it delivers before it is closed. *)
Fixpoint for_range (body : Message -> M Ctl) (inputChan : list Message) : M Ctl :=
  match inputChan with
  | [] => ret Next
  | message :: rest =>
      c <- body message ;;
      match c with
      | Next => for_range body rest
      | Return => ret Return
      end
  end.

(** The body of the loop of [Send]. *)
Definition Send_body (send : Sink) (message : Message) : M Ctl :=
  (match MsgOrigin message with
   | Some o =>
       d <- GetLatency message ;;
       LatencyStats_Add (LatencyStats (Origin_LogSource o)) d
   | None => ret tt
   end) ;;;
  err <- call_send send (Content message) ;;
  c <- match err with
       | Some e =>
           if shouldStopSending e then ret Return
           else (log_Printf e ;;; ret Next)
       | None => ret Next
       end ;;
  match c with
  | Return => ret Return
  | Next => chan_send message ;;; ret Next
  end.

(** [func (s *streamStrategy) Send(inputChan, outputChan, send)] *)
Definition Send (inputChan : list Message) (send : Sink) : M unit :=
  for_range (Send_body send) inputChan ;;; ret tt.

(** [func (s *streamStrategy) Flush(ctx context.Context)]: nothing to
    do. *)
Definition Flush (ctx : Context) : M unit := ret tt.

(** The interface [Strategy] of the sender package and the shared value
    [StreamStrategy] of type [*streamStrategy], a struct without fields. *)
Class Strategy := {
  strategy_Flush : Context -> M unit;
  strategy_Send : list Message -> Sink -> M unit
}.

Definition StreamStrategy : Strategy :=
  {| strategy_Flush := Flush; strategy_Send := Send |}.

(** *** Observations on a run *)

Definition res_world {A} (r : Res A) : World :=
  match r with Done _ w => w | Panic _ w => w end.

Definition res_value {A} (r : Res A) : option A :=
  match r with Done a _ => Some a | Panic _ _ => None end.

(** The calls of [LatencyStats.Add], the payloads given to the sink, the
    lines logged and the messages forwarded, each in program order. *)
Definition adds (tr : list Event) : list (nat * Z) :=
  omap (fun e => match e with EvAdd s d => Some (s, d) | _ => None end) tr.

Definition sink_calls (tr : list Event) : list (list byte) :=
  omap (fun e => match e with EvSink p _ => Some p | _ => None end) tr.

Definition logs (tr : list Event) : list string :=
  omap (fun e => match e with EvLog l => Some l | _ => None end) tr.

Definition outs (tr : list Event) : list Message :=
  omap (fun e => match e with EvOut m => Some m | _ => None end) tr.

(** The replies the sink gives when it is handed [payloads] one after
    the other, starting in [env]. *)
Fixpoint sink_replies (send : Sink) (payloads : list (list byte)) (env : Env)
  : list (option error) :=
  match payloads with
  | [] => []
  | p :: ps => let '(r, env') := send p env in r :: sink_replies send ps env'
  end.

(** The environment the sink leaves behind after these calls. *)
Fixpoint sink_env (send : Sink) (payloads : list (list byte)) (env : Env) : Env :=
  match payloads with
  | [] => env
  | p :: ps => sink_env send ps (send p env).2
  end.

Definition is_fatal (r : option error) : bool :=
  match r with Some e => shouldStopSending e | None => false end.

(** The line logged for a reply, if any. *)
Definition reply_log (r : option error) : option string :=
  match r with
  | Some e => if shouldStopSending e then None else Some (log_line e)
  | None => None
  end.

(** The events of one iteration on [m] when the sink replies [r], up to
    the point where the message would be forwarded. *)
Definition before_forward (m : Message) (env : Env) (r : option error) : list Event :=
  (match MsgOrigin m with
   | Some o => [EvAdd (LatencyStats (Origin_LogSource o))
                      (latency m env)]
   | None => []
   end)
  ++ EvSink (Content m) r
  :: match reply_log r with Some l => [EvLog l] | None => [] end.

(** A sequence without its element of index [k]. *)
Definition all_but (k : nat) (msgs : list Message) : list Message :=
  take k msgs ++ drop (S k) msgs.

(** The same message without an origin. *)
Definition clear_origin (m : Message) : Message :=
  mkMessage (Content m) None (IngestionTimestamp m).

Definition retag (f : Message -> Message) (e : Event) : Event :=
  match e with EvOut m => EvOut (f m) | _ => e end.

Definition is_add (e : Event) : bool :=
  match e with EvAdd _ _ => true | _ => false end.

(** The number of replies before the first fatal one, and the number of
    replies up to and including it. *)
Fixpoint accepted (rs : list (option error)) : nat :=
  match rs with
  | [] => 0
  | r :: rs => if is_fatal r then 0 else S (accepted rs)
  end.

Definition attempted (rs : list (option error)) : nat :=
  if existsb is_fatal rs then S (accepted rs) else accepted rs.

(** The aggregator that the latency of a message is reported to. *)
Definition origin_stats (m : Message) : option nat :=
  o ← MsgOrigin m; Some (LatencyStats (Origin_LogSource o)).

End Strategy.

Arguments Done {R A} a w.
Arguments Panic {R A} reason w.

End Sender.

(** ** parser/prometheus/parser.go *)

Module Prometheus.

Abbreviation float64 := PrimFloat.float (only parsing).

(** *** The metric model of [github.com/prometheus/client_model/go]

    Every scalar field of the generated structs is a pointer, [None] when
    it is [nil]; the getters return the zero value for a [nil] field. *)

Record LabelPair := mkLabelPair {
  LabelPair_Name : option string;
  LabelPair_Value : option string
}.

Record Gauge := mkGauge { Gauge_Value : option float64 }.
Record Counter := mkCounter { Counter_Value : option float64 }.
Record Untyped := mkUntyped { Untyped_Value : option float64 }.

Record Quantile := mkQuantile {
  Quantile_Quantile : option float64;
  Quantile_Value : option float64
}.

Record Summary := mkSummary {
  Summary_SampleCount : option N;
  Summary_SampleSum : option float64;
  Summary_Quantile : list Quantile
}.

Record Bucket := mkBucket {
  Bucket_CumulativeCount : option N;
  Bucket_UpperBound : option float64
}.

Record Histogram := mkHistogram {
  Histogram_SampleCount : option N;
  Histogram_SampleSum : option float64;
  Histogram_Bucket : list Bucket
}.

Record Metric := mkMetric {
  Metric_Label : list LabelPair;
  Metric_Gauge : option Gauge;
  Metric_Counter : option Counter;
  Metric_Summary : option Summary;
  Metric_Untyped : option Untyped;
  Metric_Histogram : option Histogram
}.

Inductive MetricType :=
| MetricType_COUNTER
| MetricType_GAUGE
| MetricType_SUMMARY
| MetricType_UNTYPED
| MetricType_HISTOGRAM
| MetricType_GAUGE_HISTOGRAM.

#[global] Instance MetricType_eq_dec : EqDecision MetricType.
Proof. solve_decision. Defined.

Record MetricFamily := mkMetricFamily {
  MetricFamily_Name : option string;
  MetricFamily_Type : option MetricType;
  MetricFamily_Metric : list Metric
}.

Definition LabelPair_GetName (lp : LabelPair) : string :=
  default "" (LabelPair_Name lp).
Definition LabelPair_GetValue (lp : LabelPair) : string :=
  default "" (LabelPair_Value lp).

(** [x.GetValue()] on the result of [m.GetGauge()] and the like: the
    receiver may be [nil]. *)
Definition Gauge_GetValue (g : option Gauge) : float64 :=
  default PrimFloat.zero (g ≫= Gauge_Value).
Definition Counter_GetValue (c : option Counter) : float64 :=
  default PrimFloat.zero (c ≫= Counter_Value).
Definition Untyped_GetValue (u : option Untyped) : float64 :=
  default PrimFloat.zero (u ≫= Untyped_Value).

Definition Quantile_GetQuantile (q : Quantile) : float64 :=
  default PrimFloat.zero (Quantile_Quantile q).
Definition Quantile_GetValue (q : Quantile) : float64 :=
  default PrimFloat.zero (Quantile_Value q).
Definition Summary_GetSampleCount (s : Summary) : N :=
  default 0%N (Summary_SampleCount s).
Definition Summary_GetSampleSum (s : Summary) : float64 :=
  default PrimFloat.zero (Summary_SampleSum s).
Definition Bucket_GetCumulativeCount (b : Bucket) : N :=
  default 0%N (Bucket_CumulativeCount b).
Definition Bucket_GetUpperBound (b : Bucket) : float64 :=
  default PrimFloat.zero (Bucket_UpperBound b).
Definition Histogram_GetSampleCount (h : Histogram) : N :=
  default 0%N (Histogram_SampleCount h).
Definition Histogram_GetSampleSum (h : Histogram) : float64 :=
  default PrimFloat.zero (Histogram_SampleSum h).

Definition MetricFamily_GetType (mf : MetricFamily) : MetricType :=
  default MetricType_COUNTER (MetricFamily_Type mf).

(** A well-formed metric of a gauge, counter or untyped family, and the
    value it carries.  The exposition formats set exactly one of the value
    fields of a metric, the one of its family's type; what is asked here
    is no more than what makes [getNameAndValue] read that field. *)
Inductive scalar_metric : MetricType -> Metric -> float64 -> Prop :=
| gauge_metric m g :
    Metric_Gauge m = Some g ->
    scalar_metric MetricType_GAUGE m (Gauge_GetValue (Some g))
| counter_metric m c :
    Metric_Gauge m = None -> Metric_Counter m = Some c ->
    scalar_metric MetricType_COUNTER m (Counter_GetValue (Some c))
| untyped_metric m u :
    Metric_Gauge m = None -> Metric_Counter m = None -> Metric_Untyped m = Some u ->
    scalar_metric MetricType_UNTYPED m (Untyped_GetValue (Some u)).

(** *** What the parser is linked against

    The packages [types], [pkg/prom], [pkg/metrics] and [pkg/filter] and
    the formatting of floats are not part of the embedding; the parser is
    taken over any implementation of them. *)
Class Externals := {
  (** [http.Header] and its zero value *)
  Header : Type;
  nil_Header : Header;
  (** the non-nil errors of [util.Parse] *)
  perror : Type;
  Sample : Type;
  SampleList : Type;
  (** [util.Parse(buf, header)]: an error, or the metric families in the
      order in which [range] visits the returned map *)
  util_Parse : list byte -> Header -> perror + list (string * MetricFamily);
  (** [prom.BuildMetric(names...)] *)
  BuildMetric : list string -> string;
  (** [types.NewSample(prefix, metric, value, labels...)] *)
  NewSample : string -> string -> float64 -> list (gmap string string) -> Sample;
  (** [slist.PushFront(sample)] and [slist.PushFrontN(samples)] *)
  PushFront : Sample -> SampleList -> SampleList;
  PushFrontN : list Sample -> SampleList -> SampleList;
  (** [fmt.Sprint] of a [float64] and the conversion [float64(n)] of a
      [uint64] *)
  Sprint : float64 -> string;
  float64_of_uint64 : N -> float64
}.

Section Parser.

Context {X : Externals}.

(** A [filter.Filter] is used through its [Match] method only. *)
Definition Filter : Type := string -> bool.

Record Parser := mkParser {
  NamePrefix : string;
  DefaultTags : gmap string string;
  ParserHeader : Header;
  IgnoreMetricsFilter : option Filter;
  IgnoreLabelKeysFilter : option Filter
}.

Definition NewParser (namePrefix : string) (defaultTags : gmap string string)
    (header : Header) (ignoreMetricsFilter ignoreLabelKeysFilter : option Filter)
  : Parser :=
  mkParser namePrefix defaultTags header ignoreMetricsFilter ignoreLabelKeysFilter.

(** [&Parser{}] *)
Definition EmptyParser : Parser := mkParser "" ∅ nil_Header None None.

(** [f != nil && f.Match(s)] *)
Definition matches (f : option Filter) (s : string) : bool :=
  match f with Some f => f s | None => false end.

(** [strings.HasPrefix(s, prefix)] *)
Definition HasPrefix (s prefix : string) : bool := String.prefix prefix s.

(** Get labels from metric *)
Definition makeLabels (p : Parser) (m : Metric) : gmap string string :=
  let result : gmap string string := ∅ in
  let result :=
    fold_left
      (fun result lp =>
         if matches (IgnoreLabelKeysFilter p) (LabelPair_GetName lp)
         then result
         else <[LabelPair_GetName lp := LabelPair_GetValue lp]> result)
      (Metric_Label m) result in
  map_fold (fun key value result => <[key := value]> result) result (DefaultTags p).

(** Get name and value from metric *)
Definition getNameAndValue (m : Metric) (metricName : string) : gmap string float64 :=
  let fields : gmap string float64 := ∅ in
  if Metric_Gauge m is Some _ then
    if negb (PrimFloat.is_nan (Gauge_GetValue (Metric_Gauge m)))
    then <[metricName := Gauge_GetValue (Metric_Gauge m)]> fields
    else fields
  else if Metric_Counter m is Some _ then
    if negb (PrimFloat.is_nan (Counter_GetValue (Metric_Counter m)))
    then <[metricName := Counter_GetValue (Metric_Counter m)]> fields
    else fields
  else if Metric_Untyped m is Some _ then
    if negb (PrimFloat.is_nan (Untyped_GetValue (Metric_Untyped m)))
    then <[metricName := Untyped_GetValue (Metric_Untyped m)]> fields
    else fields
  else fields.

Definition handleGaugeCounter (p : Parser) (m : Metric) (tags : gmap string string)
    (metricName : string) (slist : SampleList) : SampleList :=
  let fields := getNameAndValue m metricName in
  map_fold
    (fun metric value slist =>
       if negb (HasPrefix metric (NamePrefix p))
       then PushFront (NewSample "" (BuildMetric [NamePrefix p; metric; ""]) value [tags]) slist
       else PushFront (NewSample "" (BuildMetric [""; metric; ""]) value [tags]) slist)
    slist fields.

(** [HandleSummary] reads the field [Quantile] of [m.GetSummary()]
    directly, which panics when the metric carries no summary: [None]. *)
Definition HandleSummary (p : Parser) (m : Metric) (tags : gmap string string)
    (metricName : string) (slist : SampleList) : option SampleList :=
  let namePrefix := if negb (HasPrefix metricName (NamePrefix p)) then NamePrefix p else "" in
  s ← Metric_Summary m;
  let samples : list Sample := [] in
  let samples := samples ++
    [NewSample "" (BuildMetric [namePrefix; metricName; "count"])
               (float64_of_uint64 (Summary_GetSampleCount s)) [tags]] in
  let samples := samples ++
    [NewSample "" (BuildMetric [namePrefix; metricName; "sum"])
               (Summary_GetSampleSum s) [tags]] in
  let samples :=
    fold_left
      (fun samples q =>
         samples ++
         [NewSample "" (BuildMetric [namePrefix; metricName; "quantile"])
                    (Quantile_GetValue q)
                    [tags; {["quantile" := Sprint (Quantile_GetQuantile q)]}]])
      (Summary_Quantile s) samples in
  Some (PushFrontN samples slist).

(** As [HandleSummary], for [m.GetHistogram().Bucket]. *)
Definition HandleHistogram (p : Parser) (m : Metric) (tags : gmap string string)
    (metricName : string) (slist : SampleList) : option SampleList :=
  let namePrefix := if negb (HasPrefix metricName (NamePrefix p)) then NamePrefix p else "" in
  h ← Metric_Histogram m;
  let samples : list Sample := [] in
  let samples := samples ++
    [NewSample "" (BuildMetric [namePrefix; metricName; "count"])
               (float64_of_uint64 (Histogram_GetSampleCount h)) [tags]] in
  let samples := samples ++
    [NewSample "" (BuildMetric [namePrefix; metricName; "sum"])
               (Histogram_GetSampleSum h) [tags]] in
  let samples := samples ++
    [NewSample "" (BuildMetric [namePrefix; metricName; "bucket"])
               (float64_of_uint64 (Histogram_GetSampleCount h))
               [tags; {["le" := "+Inf"]}]] in
  let samples :=
    fold_left
      (fun samples b =>
         let le := Sprint (Bucket_GetUpperBound b) in
         let value := float64_of_uint64 (Bucket_GetCumulativeCount b) in
         samples ++
         [NewSample "" (BuildMetric [namePrefix; metricName; "bucket"])
                    value [tags; {["le" := le]}]])
      (Histogram_Bucket h) samples in
  Some (PushFrontN samples slist).

(** The body of the inner loop of [Parse], for one metric [m] of the
    family [mf]. *)
Definition Parse_metric (p : Parser) (metricName : string) (mf : MetricFamily)
    (m : Metric) (slist : SampleList) : option SampleList :=
  let tags := makeLabels p m in
  if decide (MetricFamily_GetType mf = MetricType_SUMMARY) then
    HandleSummary p m tags metricName slist
  else if decide (MetricFamily_GetType mf = MetricType_HISTOGRAM) then
    HandleHistogram p m tags metricName slist
  else
    Some (handleGaugeCounter p m tags metricName slist).

(** [for _, m := range mf.Metric { ... }] *)
Fixpoint Parse_metrics (p : Parser) (metricName : string) (mf : MetricFamily)
    (ms : list Metric) (slist : SampleList) : option SampleList :=
  match ms with
  | [] => Some slist
  | m :: ms =>
      slist ← Parse_metric p metricName mf m slist;
      Parse_metrics p metricName mf ms slist
  end.

(** [for metricName, mf := range metricFamilies { ... }] *)
Fixpoint Parse_families (p : Parser) (metricFamilies : list (string * MetricFamily))
    (slist : SampleList) : option SampleList :=
  match metricFamilies with
  | [] => Some slist
  | (metricName, mf) :: rest =>
      if matches (IgnoreMetricsFilter p) metricName
      then Parse_families p rest slist
      else
        slist ← Parse_metrics p metricName mf (MetricFamily_Metric mf) slist;
        Parse_families p rest slist
  end.

(** [Parse] returns an error ([Some e]) or [nil] together with the
    sample list as it leaves it; [None] is a panic. *)
Definition Parse (p : Parser) (buf : list byte) (slist : SampleList)
  : option (option perror * SampleList) :=
  match util_Parse buf (ParserHeader p) with
  | inl err => Some (Some err, slist)
  | inr metricFamilies =>
      slist ← Parse_families p metricFamilies slist;
      Some (None, slist)
  end.

(** The sample that [handleGaugeCounter] builds for the field
    [metric = value]. *)
Definition scalar_sample (p : Parser) (tags : gmap string string)
    (metric : string) (value : float64) : Sample :=
  NewSample ""
    (BuildMetric [if HasPrefix metric (NamePrefix p) then "" else NamePrefix p;
                  metric; ""])
    value [tags].

(** One turn of the first loop of [makeLabels]. *)
Definition add_label (p : Parser) (result : gmap string string) (lp : LabelPair)
  : gmap string string :=
  if matches (IgnoreLabelKeysFilter p) (LabelPair_GetName lp)
  then result
  else <[LabelPair_GetName lp := LabelPair_GetValue lp]> result.

(** A metric that carries what the handler of its family reads: a summary
    in a summary family, a histogram in a histogram family. *)
Definition well_typed (mf : MetricFamily) (m : Metric) : Prop :=
  (MetricFamily_GetType mf = MetricType_SUMMARY -> is_Some (Metric_Summary m))
  /\ (MetricFamily_GetType mf = MetricType_HISTOGRAM -> is_Some (Metric_Histogram m)).

(** A metric that carries none of the three scalar values. *)
Definition valueless (m : Metric) : Prop :=
  Metric_Gauge m = None /\ Metric_Counter m = None /\ Metric_Untyped m = None.

End Parser.

End Prometheus.

(** ** Concrete collaborators, used to run the definitions *)

Module Demo.
Import Sender.

(** Two errors: a timeout, which is transient, and the cancellation of the
    context, on which the sender stops. *)
Inductive demo_error := Timeout | Canceled.

(** The environment counts the calls of the sink; a call takes 100ns. *)
#[global] Instance demo_runtime : Runtime := {|
  error := demo_error;
  Env := nat;
  latency := fun m calls => 100 * Z.of_nat calls - IngestionTimestamp m;
  shouldStopSending := fun e => match e with Canceled => true | Timeout => false end;
  Error := fun e => match e with
                    | Timeout => "i/o timeout"
                    | Canceled => "context canceled"
                    end
|}.

(** A sink that always succeeds, and one that fails on its call number
    [k] (counted from 0) only. *)
Definition sink_ok : Sink := fun _ calls => (None, S calls).

Definition sink_fail_at (k : nat) (e : demo_error) : Sink :=
  fun _ calls => (if Nat.eqb calls k then Some e else None, S calls).

Definition src1 : Origin := mkOrigin (mkLogSource 7).

Definition msg1 : Message := mkMessage [x61] (Some src1) (-40).
Definition msg2 : Message := mkMessage [x62] None 0.
Definition msg3 : Message := mkMessage [x63] (Some src1) 10.

(** A world in which nothing happened yet and the output channel is
    open, and the world after [msg1] went through a sink that accepted
    it. *)
Definition w0 : World := mkWorld (0%nat : Env) (mkChan [] false) [].

Definition w1 : World :=
  mkWorld (1%nat : Env) (mkChan [msg1] false)
          [EvAdd 7 40; EvSink [x61] None; EvOut msg1].

Import Prometheus.

(** A sample list as a list, newest sample first, of samples reduced to
    their name and value; [BuildMetric] joins the non-empty names by an
    underscore. *)
#[global] Instance demo_externals : Externals := {|
  Header := unit;
  nil_Header := tt;
  perror := string;
  Sample := string * float64;
  SampleList := list (string * float64);
  util_Parse := fun _ _ => inr [];
  BuildMetric := fun names =>
    fold_left (fun b name =>
                 if decide (name = "") then b
                 else if decide (b = "") then name else b +:+ "_" +:+ name)
              names "";
  NewSample := fun _ metric value _ => (metric, value);
  PushFront := fun s l => s :: l;
  PushFrontN := fun ss l => fold_left (fun l s => s :: l) ss l;
  Sprint := fun _ => "0";
  float64_of_uint64 := fun n => PrimFloat.of_uint63 (Uint63.of_Z (Z.of_N n))
|}.

Definition demo_parser : Parser := NewParser "node" ∅ tt None None.

Definition gauge_family : MetricFamily :=
  mkMetricFamily (Some "up") (Some MetricType_GAUGE) [].

Definition gauge_nan : Metric :=
  mkMetric [] (Some (mkGauge (Some PrimFloat.nan))) None None None None.

Definition gauge_one : Metric :=
  mkMetric [] (Some (mkGauge (Some PrimFloat.one))) None None None None.

(** A parser with a default tag and an ignored label key, and a metric
    that carries both, and a label given twice. *)
Definition tagging_parser : Parser :=
  NewParser "node" {["env" := "prod"]} tt None (Some (String.eqb "secret")).

Definition labelled : Metric :=
  mkMetric [mkLabelPair (Some "env") (Some "dev");
            mkLabelPair (Some "secret") (Some "x");
            mkLabelPair (Some "job") (Some "a");
            mkLabelPair (Some "job") (Some "b")]
           (Some (mkGauge (Some PrimFloat.one))) None None None None.

(** A family of gauge histograms, whose metrics carry a histogram only. *)
Definition gauge_histogram : Metric :=
  mkMetric [] None None None None (Some (mkHistogram (Some 3%N) None [])).

Definition gauge_histogram_family : MetricFamily :=
  mkMetricFamily (Some "lat") (Some MetricType_GAUGE_HISTOGRAM) [gauge_histogram].

(** Collaborators as above, for which the empty buffer does not parse,
    the buffer of one zero byte is the dump of a gauge family with a NaN
    value, and any other buffer is the dump of that family and of a
    summary family. *)
Definition summary_metric : Metric :=
  mkMetric [] None None
    (Some (mkSummary (Some 2%N) (Some PrimFloat.one)
             [mkQuantile (Some PrimFloat.one) (Some PrimFloat.one)]))
    None None.

Definition nan_dump : list (string * MetricFamily) :=
  [("up", mkMetricFamily (Some "up") (Some MetricType_GAUGE) [gauge_nan])].

Definition dump : list (string * MetricFamily) :=
  [("up", mkMetricFamily (Some "up") (Some MetricType_GAUGE) [gauge_nan]);
   ("rpc", mkMetricFamily (Some "rpc") (Some MetricType_SUMMARY) [summary_metric])].

Definition dump_externals : Externals := {|
  Header := unit;
  nil_Header := tt;
  perror := string;
  Sample := string * float64;
  SampleList := list (string * float64);
  util_Parse := fun buf _ =>
    match buf with
    | [] => inl "empty"
    | [x00] => inr nan_dump
    | _ => inr dump
    end;
  BuildMetric := @BuildMetric demo_externals;
  NewSample := fun _ metric value _ => (metric, value);
  PushFront := fun s l => s :: l;
  PushFrontN := fun ss l => fold_left (fun l s => s :: l) ss l;
  Sprint := fun _ => "0";
  float64_of_uint64 := @float64_of_uint64 demo_externals
|}.

Definition plain_parser : @Parser dump_externals :=
  @NewParser dump_externals "node" ∅ tt None None.

(** A world whose output channel has been closed by its owner. *)
Definition w_closed : World := mkWorld (0%nat : Env) (mkChan [] true) [].

End Demo.

(** * Properties of the stream strategy *)

Module SenderProps.
Import Sender.

Section Props.

Context {R : Runtime}.
Implicit Types (send : Sink) (m : Message) (w : World) (tr : list Event).

(** ** The observations distribute over the trace *)

Lemma adds_app tr1 tr2 : adds (tr1 ++ tr2) = adds tr1 ++ adds tr2.
Proof. apply omap_app. Qed.

Lemma sink_calls_app tr1 tr2 :
  sink_calls (tr1 ++ tr2) = sink_calls tr1 ++ sink_calls tr2.
Proof. apply omap_app. Qed.

Lemma logs_app tr1 tr2 : logs (tr1 ++ tr2) = logs tr1 ++ logs tr2.
Proof. apply omap_app. Qed.

Lemma outs_app tr1 tr2 : outs (tr1 ++ tr2) = outs tr1 ++ outs tr2.
Proof. apply omap_app. Qed.

(** ** One iteration of the loop *)

Lemma Send_body_eq send m w :
  Send_body send m w =
  let r := (send (Content m) (w_env w)).1 in
  let env' := (send (Content m) (w_env w)).2 in
  let tr := w_trace w ++ before_forward m (w_env w) r in
  if is_fatal r then Done Return (mkWorld env' (w_output w) tr)
  else if ch_closed (w_output w)
       then Panic "send on closed channel" (mkWorld env' (w_output w) tr)
       else Done Next
              (mkWorld env'
                 (mkChan (ch_buf (w_output w) ++ [m]) (ch_closed (w_output w)))
                 (tr ++ [EvOut m])).
Proof.
  unfold Send_body, before_forward, bind, call_send, GetLatency,
    LatencyStats_Add, log_Printf, emit, chan_send, ret, reply_log, is_fatal.
  destruct w as [env out tr]; simpl.
  destruct (MsgOrigin m) as [o|]; simpl;
    destruct (send (Content m) env) as [[e|] env']; simpl;
    try destruct (shouldStopSending e); simpl;
    try destruct (ch_closed out); simpl;
    rewrite <- ?app_assoc; simpl; rewrite ?app_nil_r; reflexivity.
Qed.

Lemma sink_replies_cons send p ps (env : Env) :
  sink_replies send (p :: ps) env =
  (send p env).1 :: sink_replies send ps (send p env).2.
Proof. simpl. by destruct (send p env). Qed.

Lemma sink_replies_length send ps (env : Env) :
  length (sink_replies send ps env) = length ps.
Proof.
  revert env. induction ps as [|p ps IH]; intros env; [done|].
  rewrite sink_replies_cons. simpl. by rewrite IH.
Qed.

Lemma for_range_cons (body : Message -> M Ctl) m msgs w :
  for_range body (m :: msgs) w =
  match body m w with
  | Done Next w' => for_range body msgs w'
  | Done Return w' => Done Return w'
  | Panic r w' => Panic r w'
  end.
Proof.
  simpl. unfold bind. destruct (body m w) as [[|] w'|r w']; reflexivity.
Qed.

Lemma Send_eq msgs send w :
  Send msgs send w =
  match for_range (Send_body send) msgs w with
  | Done _ w' => Done tt w'
  | Panic r w' => Panic r w'
  end.
Proof. reflexivity. Qed.

(** ** Runs without a fatal reply

    As long as no reply of the sink is fatal and the output channel is
    open, the loop goes through its whole input: every payload is handed
    to the sink, every message is forwarded, and a line is logged for
    every error. *)
Lemma for_range_nonfatal send msgs w :
  ch_closed (w_output w) = false ->
  Forall (fun r => is_fatal r = false)
         (sink_replies send (map Content msgs) (w_env w)) ->
  exists w',
    for_range (Send_body send) msgs w = Done Next w'
    /\ w_env w' = sink_env send (map Content msgs) (w_env w)
    /\ ch_closed (w_output w') = false
    /\ ch_buf (w_output w') = ch_buf (w_output w) ++ msgs
    /\ outs (w_trace w') = outs (w_trace w) ++ msgs
    /\ sink_calls (w_trace w') = sink_calls (w_trace w) ++ map Content msgs
    /\ logs (w_trace w') =
       logs (w_trace w)
       ++ omap reply_log (sink_replies send (map Content msgs) (w_env w)).
Proof.
  revert w. induction msgs as [|m msgs IH]; intros w Hopen Hok.
  - exists w. simpl. rewrite !app_nil_r. done.
  - rewrite map_cons, sink_replies_cons in Hok.
    apply Forall_cons in Hok as [Hm Hok].
    rewrite for_range_cons, Send_body_eq. cbv zeta.
    rewrite Hm, Hopen.
    match goal with
    | |- context [for_range _ _ ?w1] =>
        destruct (IH w1) as (w' & Hrun & Henv & Hcl & Hbuf & Houts & Hcalls & Hlogs);
        [done|exact Hok|]
    end.
    simpl in Henv, Hbuf, Houts, Hcalls, Hlogs.
    exists w'. split; [exact Hrun|].
    rewrite Henv, Hcl, Hbuf, Houts, Hcalls, Hlogs.
    rewrite map_cons, sink_replies_cons.
    rewrite !outs_app, !sink_calls_app, !logs_app.
    unfold before_forward.
    rewrite !outs_app, !sink_calls_app, !logs_app.
    destruct (MsgOrigin m), (reply_log _) eqn:Hl; simpl; rewrite ?Hl;
      rewrite ?app_nil_r, <- ?app_assoc; done.
Qed.

(** ** Runs that meet a fatal reply

    When reply number [k] is the first fatal one, the loop returns in
    iteration [k]: the sink has seen the payloads up to and including
    that of message [k], and the messages before [k] were forwarded. *)
Lemma for_range_fatal send msgs k w :
  ch_closed (w_output w) = false ->
  Forall (fun r => is_fatal r = false)
         (take k (sink_replies send (map Content msgs) (w_env w))) ->
  is_fatal <$> (sink_replies send (map Content msgs) (w_env w) !! k) = Some true ->
  exists w',
    for_range (Send_body send) msgs w = Done Return w'
    /\ ch_closed (w_output w') = false
    /\ ch_buf (w_output w') = ch_buf (w_output w) ++ take k msgs
    /\ outs (w_trace w') = outs (w_trace w) ++ take k msgs
    /\ sink_calls (w_trace w') =
       sink_calls (w_trace w) ++ map Content (take (S k) msgs).
Proof.
  revert msgs w. induction k as [|k IH]; intros [|m msgs] w Hopen Hok Hk;
    try discriminate Hk;
    rewrite map_cons, sink_replies_cons in Hok, Hk;
    rewrite for_range_cons, Send_body_eq; cbv zeta.
  - simpl in Hk. injection Hk as Hk. rewrite Hk.
    eexists. split; [reflexivity|]. simpl.
    rewrite !outs_app, !sink_calls_app, !app_nil_r. unfold before_forward.
    rewrite !outs_app, !sink_calls_app.
    destruct (MsgOrigin m), (reply_log _); simpl; rewrite ?app_nil_r; done.
  - simpl in Hk. rewrite firstn_cons in Hok.
    apply Forall_cons in Hok as [Hm Hok]. rewrite Hm, Hopen.
    match goal with
    | |- context [for_range _ _ ?w1] =>
        destruct (IH msgs w1) as (w' & Hrun & Hcl & Hbuf & Houts & Hcalls);
        [done|exact Hok|exact Hk|]
    end.
    simpl in Hbuf, Houts, Hcalls.
    exists w'. split; [exact Hrun|].
    rewrite Hcl, Hbuf, Houts, Hcalls.
    rewrite !outs_app, !sink_calls_app. unfold before_forward.
    rewrite !outs_app, !sink_calls_app.
    destruct (MsgOrigin m), (reply_log _); simpl;
      rewrite ?app_nil_r, <- ?app_assoc; done.
Qed.

Lemma omap_reply_log_ok n :
  omap reply_log (replicate n (@None error)) = [].
Proof. induction n; simpl; auto. Qed.

Lemma Forall_nonfatal_ok n :
  Forall (fun r => is_fatal r = false) (replicate n (@None error)).
Proof. apply Forall_replicate. reflexivity. Qed.

(** ** The claims about [Send] on whole input sequences *)

(** C3 (order preservation).  When every call of the sink succeeds, the
    messages written to the (open) output channel during [Send] are
    exactly the input messages, in the order of the input: nothing is
    left out, duplicated or moved. *)
Theorem C3_order_preservation send msgs w :
  ch_closed (w_output w) = false ->
  sink_replies send (map Content msgs) (w_env w) = replicate (length msgs) None ->
  exists w',
    Send msgs send w = Done tt w'
    /\ ch_buf (w_output w') = ch_buf (w_output w) ++ msgs
    /\ outs (w_trace w') = outs (w_trace w) ++ msgs.
Proof.
  intros Hopen Hok.
  destruct (for_range_nonfatal send msgs w Hopen)
    as (w' & Hrun & _ & _ & Hbuf & Houts & _).
  { rewrite Hok. apply Forall_nonfatal_ok. }
  exists w'. rewrite Send_eq, Hrun. done.
Qed.

(** C1, as the code has it (log and forward).  When the sink returns a
    transient error for message [k] only and succeeds for all the
    others, [Send] hands every message to the sink, logs one line for the
    error, and writes every message to output, message [k] included, in
    the order of the input; it goes on with the messages after [k]. *)
Theorem C1_transient_is_logged_and_forwarded send msgs k n e w :
  ch_closed (w_output w) = false ->
  shouldStopSending e = false ->
  sink_replies send (map Content msgs) (w_env w)
    = replicate k None ++ Some e :: replicate n None ->
  exists w',
    Send msgs send w = Done tt w'
    /\ ch_buf (w_output w') = ch_buf (w_output w) ++ msgs
    /\ sink_calls (w_trace w') = sink_calls (w_trace w) ++ map Content msgs
    /\ logs (w_trace w') = logs (w_trace w) ++ [log_line e].
Proof.
  intros Hopen He Hrep.
  destruct (for_range_nonfatal send msgs w Hopen)
    as (w' & Hrun & _ & _ & Hbuf & _ & Hcalls & Hlogs).
  { rewrite Hrep. apply Forall_app. split; [apply Forall_nonfatal_ok|].
    apply Forall_cons. split; [exact He|apply Forall_nonfatal_ok]. }
  exists w'. rewrite Send_eq, Hrun. repeat split; try done.
  rewrite Hlogs, Hrep, omap_app, omap_reply_log_ok. simpl.
  unfold reply_log at 1. rewrite He, omap_reply_log_ok. done.
Qed.

(** C2, as the code has it.  When the sink returns a fatal error for
    message [k] and succeeds for the messages before it, [Send] returns
    in iteration [k]: output holds exactly the messages of index below
    [k]; the sink was called for the messages of index up to and
    including [k] (the call on message [k] is the one that fails) and
    for none after it. *)
Theorem C2_stop_on_fatal send msgs k e w :
  ch_closed (w_output w) = false ->
  shouldStopSending e = true ->
  take (S k) (sink_replies send (map Content msgs) (w_env w))
    = replicate k None ++ [Some e] ->
  exists w',
    Send msgs send w = Done tt w'
    /\ ch_buf (w_output w') = ch_buf (w_output w) ++ take k msgs
    /\ outs (w_trace w') = outs (w_trace w) ++ take k msgs
    /\ sink_calls (w_trace w') =
       sink_calls (w_trace w) ++ map Content (take (S k) msgs).
Proof.
  intros Hopen He Hrep.
  set (rs := sink_replies send (map Content msgs) (w_env w)) in *.
  assert (Hk : rs !! k = Some (Some e)).
  { rewrite <- (lookup_take_lt rs (S k) k) by lia. rewrite Hrep.
    rewrite lookup_app_r by (rewrite length_replicate; lia).
    rewrite length_replicate, Nat.sub_diag. reflexivity. }
  assert (Hpre : take k rs = replicate k None).
  { assert (H : take k (take (S k) rs) = take k rs)
      by (rewrite take_take; f_equal; lia).
    rewrite <- H, Hrep. rewrite take_app_length'; [done|].
    by rewrite length_replicate. }
  destruct (for_range_fatal send msgs k w Hopen)
    as (w' & Hrun & _ & Hbuf & Houts & Hcalls).
  { fold rs. rewrite Hpre. apply Forall_nonfatal_ok. }
  { fold rs. rewrite Hk. simpl. by rewrite He. }
  exists w'. rewrite Send_eq, Hrun. done.
Qed.

(** ** The claims about single messages *)

Lemma for_range_app (body : Message -> M Ctl) pre post w :
  for_range body (pre ++ post) w =
  match for_range body pre w with
  | Done Next w1 => for_range body post w1
  | Done Return w1 => Done Return w1
  | Panic r w1 => Panic r w1
  end.
Proof.
  revert w. induction pre as [|m pre IH]; intros w; [reflexivity|].
  rewrite <- app_comm_cons, !for_range_cons.
  destruct (body m w) as [[|] w1|r w1]; auto.
Qed.

(** [Send] on an input in which [m] comes after [pre]: once the loop has
    gone through [pre], it runs its body on [m] and, unless the body
    returns, goes on with the rest. *)
Lemma Send_reaches send pre m post w w1 :
  for_range (Send_body send) pre w = Done Next w1 ->
  Send (pre ++ m :: post) send w =
  match Send_body send m w1 with
  | Done Next w2 => Send post send w2
  | Done Return w2 => Done tt w2
  | Panic r w2 => Panic r w2
  end.
Proof.
  intros Hpre. rewrite !Send_eq, for_range_app, Hpre, for_range_cons.
  destruct (Send_body send m w1) as [[|] w2|r w2]; reflexivity.
Qed.

(** C4 (latency accounting).  Let [Send] process the message [m], that
    is, let its loop reach [m] in some world [w1].  The events of that
    iteration contain exactly one [LatencyStats.Add], on the aggregator
    of the origin of [m] and with the latency of [m], when [m] has an
    origin, and none when it has not.  Apart from that call the
    iteration is the one of the same message without origin: same call
    of the sink, same log line, same decision, same environment, and the
    message is forwarded in the one exactly when it is in the other. *)
Theorem C4_latency_accounting send pre m post w w1 :
  for_range (Send_body send) pre w = Done Next w1 ->
  let r := Send_body send m w1 in
  let r0 := Send_body send (clear_origin m) w1 in
  Send (pre ++ m :: post) send w =
    match r with
    | Done Next w2 => Send post send w2
    | Done Return w2 => Done tt w2
    | Panic s w2 => Panic s w2
    end
  /\ exists evs fwd,
      w_trace (res_world r) = w_trace w1 ++ evs
      /\ (forall o, MsgOrigin m = Some o ->
             adds evs = [(LatencyStats (Origin_LogSource o),
                          latency m (w_env w1))])
      /\ (MsgOrigin m = None -> adds evs = [])
      /\ w_trace (res_world r0) =
           w_trace w1
           ++ map (retag clear_origin) (filter (fun e => negb (is_add e)) evs)
      /\ res_value r0 = res_value r
      /\ w_env (res_world r0) = w_env (res_world r)
      /\ ch_buf (w_output (res_world r)) = ch_buf (w_output w1) ++ fwd
      /\ ch_buf (w_output (res_world r0)) =
           ch_buf (w_output w1) ++ map clear_origin fwd.
Proof.
  intros Hpre r r0. split; [by apply Send_reaches|].
  subst r r0. rewrite !Send_body_eq. cbv zeta. simpl Content.
  destruct (send (Content m) (w_env w1)) as [rep env'] eqn:Hs. simpl fst; simpl snd.
  destruct (is_fatal rep) eqn:Hf; [|destruct (ch_closed (w_output w1)) eqn:Hc].
  1,2: exists (before_forward m (w_env w1) rep), [].
  3: exists (before_forward m (w_env w1) rep ++ [EvOut m]), [m].
  all: unfold before_forward; simpl;
    destruct (MsgOrigin m), (reply_log rep); simpl;
    rewrite ?app_nil_r, <- ?app_assoc; simpl;
    repeat split; intros; simplify_eq; done.
Qed.

(** C5 (the latency is reported before the sink is called).  When
    [Send] processes a message [m] that has an origin, the events of that
    iteration start with the call of [LatencyStats.Add], followed by the
    call of the sink on the content of [m]; whatever the sink replies
    (success, transient or fatal error), and whether or not the iteration
    completes, no further [Add] and no further call of the sink follow
    in it. *)
Theorem C5_add_precedes_sink send pre m post w w1 o :
  for_range (Send_body send) pre w = Done Next w1 ->
  MsgOrigin m = Some o ->
  Send (pre ++ m :: post) send w =
    match Send_body send m w1 with
    | Done Next w2 => Send post send w2
    | Done Return w2 => Done tt w2
    | Panic s w2 => Panic s w2
    end
  /\ exists rest,
      w_trace (res_world (Send_body send m w1)) =
        w_trace w1
        ++ EvAdd (LatencyStats (Origin_LogSource o))
                 (latency m (w_env w1))
        :: EvSink (Content m) (send (Content m) (w_env w1)).1
        :: rest
      /\ adds rest = [] /\ sink_calls rest = [].
Proof.
  intros Hpre Ho. split; [by apply Send_reaches|].
  rewrite Send_body_eq. cbv zeta. unfold before_forward. rewrite Ho.
  destruct (is_fatal _), (ch_closed (w_output w1)), (reply_log _);
    simpl; rewrite <- ?app_assoc; simpl; eexists; (split; [reflexivity|done]).
Qed.

(** ** Flush, the empty input, return values and the output channel *)

(** C6 (Flush does nothing).  Whatever the context, cancelled or not,
    [Flush] returns at once and leaves the world as it is: no call of
    the sink, nothing logged, nothing written.  Running it before or
    after [Send] changes nothing to what [Send] does. *)
Theorem C6_flush_is_noop (ctx : Context) w :
  Flush ctx w = Done tt w
  /\ (forall msgs send,
        bind (Flush ctx) (fun _ => Send msgs send) w = Send msgs send w)
  /\ (forall msgs send,
        bind (Send msgs send) (fun _ => Flush ctx) w = Send msgs send w).
Proof.
  split; [reflexivity|]. split; intros msgs send; [reflexivity|].
  unfold bind, Flush, ret.
  destruct (Send msgs send w) as [[] w'|r w']; reflexivity.
Qed.

(** C7 (graceful drain).  When the input is closed without having
    delivered a message, [Send] returns normally and the world is
    untouched: the sink was not called, no latency was reported and
    nothing was written to output. *)
Theorem C7_empty_input send w :
  Send [] send w = Done tt w.
Proof. reflexivity. Qed.

(** On an open output channel the loop always comes to an end without
    panicking; it ends by a [return] exactly when one of the replies of
    the sink is fatal. *)
Lemma for_range_total send msgs w :
  ch_closed (w_output w) = false ->
  exists w',
    for_range (Send_body send) msgs w =
      Done (if existsb is_fatal (sink_replies send (map Content msgs) (w_env w))
            then Return else Next) w'
    /\ ch_closed (w_output w') = false.
Proof.
  revert w. induction msgs as [|m msgs IH]; intros w Hopen.
  - exists w. done.
  - rewrite map_cons, sink_replies_cons, for_range_cons, Send_body_eq.
    cbv zeta. simpl existsb.
    destruct (is_fatal (send (Content m) (w_env w)).1) eqn:Hf; simpl orb.
    + eexists. split; [reflexivity|done].
    + rewrite Hopen.
      match goal with
      | |- context [for_range _ _ ?w1] =>
          destruct (IH w1) as (w' & Hrun & Hcl); [done|]
      end.
      exists w'. split; [exact Hrun|exact Hcl].
Qed.

(** C8 (no result, no panic).  On an open output channel [Send] always
    returns, whatever errors the sink produces, and what it returns is
    the one value of [unit]: it is the same when the loop was left by
    the [return] of the fatal case as when the input was exhausted.
    [Flush] returns that value too. *)
Theorem C8_no_error_value send msgs w :
  ch_closed (w_output w) = false ->
  exists c w',
    for_range (Send_body send) msgs w = Done c w'
    /\ (c = Return <->
        existsb is_fatal (sink_replies send (map Content msgs) (w_env w)) = true)
    /\ Send msgs send w = Done tt w'
    /\ forall ctx, res_value (Flush ctx w') = Some tt.
Proof.
  intros Hopen.
  destruct (for_range_total send msgs w Hopen) as (w' & Hrun & _).
  eexists _, w'. split; [exact Hrun|].
  split; [|split; [by rewrite Send_eq, Hrun|done]].
  destruct (existsb _ _); split; done.
Qed.

Lemma Send_body_closed send m w :
  ch_closed (w_output (res_world (Send_body send m w))) = ch_closed (w_output w).
Proof.
  rewrite Send_body_eq. cbv zeta.
  destruct (is_fatal _); [reflexivity|].
  destruct (ch_closed (w_output w)) eqn:Hc; simpl; congruence.
Qed.

(** C9 (the output channel is not closed by [Send]).  However [Send]
    ends, by exhausting its input, by the [return] of the fatal case,
    or by a panic, the output channel is closed afterwards only if it
    was closed before. *)
Theorem C9_output_not_closed send msgs w :
  ch_closed (w_output (res_world (Send msgs send w))) = ch_closed (w_output w).
Proof.
  rewrite Send_eq.
  assert (H : ch_closed (w_output (res_world (for_range (Send_body send) msgs w)))
              = ch_closed (w_output w)).
  { revert w. induction msgs as [|m msgs IH]; intros w; [reflexivity|].
    rewrite for_range_cons.
    pose proof (Send_body_closed send m w) as Hb.
    destruct (Send_body send m w) as [[|] w1|r w1]; simpl in Hb |- *;
      [rewrite IH|..]; exact Hb. }
  destruct (for_range _ _ _); exact H.
Qed.

End Props.

(** ** The theorems at work on concrete runs *)

Import Demo.

Lemma C3_order_preservation_witness :
  ch_closed (w_output w0) = false
  /\ sink_replies sink_ok (map Content [msg1; msg2; msg3]) (w_env w0)
     = replicate 3 None
  /\ exists w',
      Send [msg1; msg2; msg3] sink_ok w0 = Done tt w'
      /\ ch_buf (w_output w') = ch_buf (w_output w0) ++ [msg1; msg2; msg3]
      /\ outs (w_trace w') = outs (w_trace w0) ++ [msg1; msg2; msg3].
Proof.
  split; [reflexivity|]. split; [reflexivity|].
  apply (C3_order_preservation sink_ok [msg1; msg2; msg3] w0); reflexivity.
Defined.

(** C1 as it is stated fails: with a transient error on the second of
    three messages, the output is the whole input and not the input
    without its second message. *)
Lemma C1_counterexample :
  sink_replies (sink_fail_at 1 Timeout) (map Content [msg1; msg2; msg3]) (w_env w0)
    = [None; Some Timeout; None]
  /\ shouldStopSending Timeout = false
  /\ exists w',
      Send [msg1; msg2; msg3] (sink_fail_at 1 Timeout) w0 = Done tt w'
      /\ ch_buf (w_output w') = [msg1; msg2; msg3]
      /\ ch_buf (w_output w') <> ch_buf (w_output w0) ++ all_but 1 [msg1; msg2; msg3].
Proof.
  split; [reflexivity|]. split; [reflexivity|].
  eexists. split; [reflexivity|]. split; [reflexivity|].
  simpl. discriminate.
Qed.

Lemma C1_transient_is_logged_and_forwarded_witness :
  ch_closed (w_output w0) = false
  /\ shouldStopSending Timeout = false
  /\ sink_replies (sink_fail_at 1 Timeout) (map Content [msg1; msg2; msg3]) (w_env w0)
     = replicate 1 None ++ Some Timeout :: replicate 1 None
  /\ exists w',
      Send [msg1; msg2; msg3] (sink_fail_at 1 Timeout) w0 = Done tt w'
      /\ ch_buf (w_output w') = ch_buf (w_output w0) ++ [msg1; msg2; msg3]
      /\ sink_calls (w_trace w') =
         sink_calls (w_trace w0) ++ map Content [msg1; msg2; msg3]
      /\ logs (w_trace w') = logs (w_trace w0) ++ [log_line Timeout].
Proof.
  split; [reflexivity|]. split; [reflexivity|]. split; [reflexivity|].
  apply (C1_transient_is_logged_and_forwarded
           (sink_fail_at 1 Timeout) [msg1; msg2; msg3] 1 1 Timeout w0);
    reflexivity.
Defined.

(** C2 as it is stated fails: with a fatal error on the first message,
    the sink has been called on that message, so it is not true that no
    message of index at least [k = 0] was passed to the sink. *)
Lemma C2_counterexample :
  take 1 (sink_replies (sink_fail_at 0 Canceled) (map Content [msg1; msg2]) (w_env w0))
    = [Some Canceled]
  /\ shouldStopSending Canceled = true
  /\ exists w',
      Send [msg1; msg2] (sink_fail_at 0 Canceled) w0 = Done tt w'
      /\ sink_calls (w_trace w') = [Content msg1]
      /\ sink_calls (w_trace w') <>
         sink_calls (w_trace w0) ++ map Content (take 0 [msg1; msg2]).
Proof.
  split; [reflexivity|]. split; [reflexivity|].
  eexists. split; [reflexivity|]. split; [reflexivity|].
  simpl. discriminate.
Qed.

Lemma C2_stop_on_fatal_witness :
  ch_closed (w_output w0) = false
  /\ shouldStopSending Canceled = true
  /\ take 2 (sink_replies (sink_fail_at 1 Canceled)
               (map Content [msg1; msg2; msg3]) (w_env w0))
     = replicate 1 None ++ [Some Canceled]
  /\ exists w',
      Send [msg1; msg2; msg3] (sink_fail_at 1 Canceled) w0 = Done tt w'
      /\ ch_buf (w_output w') = ch_buf (w_output w0) ++ take 1 [msg1; msg2; msg3]
      /\ outs (w_trace w') = outs (w_trace w0) ++ take 1 [msg1; msg2; msg3]
      /\ sink_calls (w_trace w') =
         sink_calls (w_trace w0) ++ map Content (take 2 [msg1; msg2; msg3]).
Proof.
  split; [reflexivity|]. split; [reflexivity|]. split; [reflexivity|].
  apply (C2_stop_on_fatal (sink_fail_at 1 Canceled) [msg1; msg2; msg3] 1 Canceled w0);
    reflexivity.
Defined.

Lemma C4_latency_accounting_witness :
  for_range (Send_body sink_ok) [msg1] w0 = Done Next w1
  /\ exists evs,
      w_trace (res_world (Send_body sink_ok msg3 w1)) = w_trace w1 ++ evs
      /\ adds evs = [(7%nat, 90)].
Proof.
  assert (H : for_range (Send_body sink_ok) [msg1] w0 = Done Next w1)
    by reflexivity.
  split; [exact H|].
  destruct (C4_latency_accounting sink_ok [msg1] msg3 [msg2] w0 w1 H)
    as (_ & evs & fwd & Htr & Hadd & _).
  exists evs. split; [exact Htr|]. exact (Hadd src1 eq_refl).
Defined.

Lemma C5_add_precedes_sink_witness :
  for_range (Send_body (sink_fail_at 1 Canceled)) [msg1] w0 = Done Next w1
  /\ MsgOrigin msg3 = Some src1
  /\ exists rest,
      w_trace (res_world (Send_body (sink_fail_at 1 Canceled) msg3 w1)) =
        w_trace w1 ++ EvAdd 7 90 :: EvSink [x63] (Some Canceled) :: rest
      /\ adds rest = [] /\ sink_calls rest = [].
Proof.
  assert (H : for_range (Send_body (sink_fail_at 1 Canceled)) [msg1] w0 = Done Next w1)
    by reflexivity.
  split; [exact H|]. split; [reflexivity|].
  exact (proj2 (C5_add_precedes_sink (sink_fail_at 1 Canceled)
                  [msg1] msg3 [msg2] w0 w1 src1 H eq_refl)).
Defined.

Lemma C8_no_error_value_witness :
  ch_closed (w_output w0) = false
  /\ exists c w',
      for_range (Send_body (sink_fail_at 1 Canceled)) [msg1; msg2; msg3] w0 = Done c w'
      /\ (c = Return <->
          existsb is_fatal
            (sink_replies (sink_fail_at 1 Canceled)
               (map Content [msg1; msg2; msg3]) (w_env w0)) = true)
      /\ Send [msg1; msg2; msg3] (sink_fail_at 1 Canceled) w0 = Done tt w'
      /\ forall ctx, res_value (Flush ctx w') = Some tt.
Proof.
  split; [reflexivity|].
  apply (C8_no_error_value (sink_fail_at 1 Canceled) [msg1; msg2; msg3] w0).
  reflexivity.
Defined.

End SenderProps.

(** * Properties of the prometheus parser *)

Module PrometheusProps.
Import Prometheus.

Section Props.

Context {X : Externals}.
Implicit Types (p : Parser) (m : Metric) (mf : MetricFamily) (slist : SampleList).

Lemma getNameAndValue_scalar ty m (v : float64) metricName :
  scalar_metric ty m v ->
  getNameAndValue m metricName =
  if PrimFloat.is_nan v then ∅ else {[metricName := v]}.
Proof.
  intros [m' g Hg|m' c Hg Hc|m' u Hg Hc Hu]; unfold getNameAndValue;
    rewrite ?Hg, ?Hc, ?Hu;
    destruct (PrimFloat.is_nan _); simpl; by rewrite ?insert_empty.
Qed.

Lemma handleGaugeCounter_scalar ty p m (v : float64) tags metricName slist :
  scalar_metric ty m v ->
  handleGaugeCounter p m tags metricName slist =
  if PrimFloat.is_nan v then slist
  else PushFront (scalar_sample p tags metricName v) slist.
Proof.
  intros Hm. unfold handleGaugeCounter.
  rewrite (getNameAndValue_scalar ty m v metricName Hm).
  destruct (PrimFloat.is_nan v).
  - apply map_fold_empty.
  - rewrite map_fold_singleton. unfold scalar_sample.
    destruct (HasPrefix metricName (NamePrefix p)); reflexivity.
Qed.

Lemma scalar_metric_type ty m (v : float64) :
  scalar_metric ty m v ->
  ty <> MetricType_SUMMARY /\ ty <> MetricType_HISTOGRAM.
Proof. intros []; split; discriminate. Qed.

Lemma Parse_metric_scalar p metricName mf m (v : float64) slist :
  scalar_metric (MetricFamily_GetType mf) m v ->
  Parse_metric p metricName mf m slist =
    Some (if PrimFloat.is_nan v then slist
          else PushFront (scalar_sample p (makeLabels p m) metricName v) slist).
Proof.
  intros Hm.
  destruct (scalar_metric_type _ _ _ Hm) as [Hs Hh].
  unfold Parse_metric.
  destruct (decide (_ = MetricType_SUMMARY)); [done|].
  destruct (decide (_ = MetricType_HISTOGRAM)); [done|].
  f_equal. by eapply handleGaugeCounter_scalar.
Qed.

(** C10 (NaN values are skipped).  For a gauge, counter or untyped
    metric carrying the value [v]: when [v] is NaN, [getNameAndValue]
    returns the empty map, [handleGaugeCounter] leaves the sample list
    as it is, and so does the step of [Parse] on that metric; when [v]
    is not NaN, the map holds the one field [metricName = v] and each
    of the two pushes exactly one sample, built from that name and
    value, to the front of the list. *)
Theorem C10_nan_is_skipped p metricName mf m (v : float64) tags slist :
  scalar_metric (MetricFamily_GetType mf) m v ->
  getNameAndValue m metricName =
    (if PrimFloat.is_nan v then ∅ else {[metricName := v]})
  /\ handleGaugeCounter p m tags metricName slist =
    (if PrimFloat.is_nan v then slist
     else PushFront (scalar_sample p tags metricName v) slist)
  /\ Parse_metric p metricName mf m slist =
    Some (if PrimFloat.is_nan v then slist
          else PushFront (scalar_sample p (makeLabels p m) metricName v) slist).
Proof.
  intros Hm.
  split; [by eapply getNameAndValue_scalar|].
  split; [by eapply handleGaugeCounter_scalar|].
  by apply Parse_metric_scalar.
Qed.

(** What this means for [Parse] as a whole: a dump in which every value
    is a NaN gauge, counter or untyped value leaves the sample list as
    it was. *)
Lemma Parse_metrics_nan p metricName mf ms slist :
  Forall (fun m => exists v : float64,
              scalar_metric (MetricFamily_GetType mf) m v
              /\ PrimFloat.is_nan v = true) ms ->
  Parse_metrics p metricName mf ms slist = Some slist.
Proof.
  induction 1 as [|m ms (v & Hm & Hv) _ IH]; [reflexivity|].
  simpl.
  rewrite (Parse_metric_scalar p metricName mf m v slist Hm), Hv.
  exact IH.
Qed.

Lemma Parse_nan_only p buf fams slist :
  util_Parse buf (ParserHeader p) = inr fams ->
  Forall (fun nmf : string * MetricFamily =>
            Forall (fun m => exists v : float64,
                        scalar_metric (MetricFamily_GetType nmf.2) m v
                        /\ PrimFloat.is_nan v = true)
                   (MetricFamily_Metric nmf.2)) fams ->
  Parse p buf slist = Some (None, slist).
Proof.
  intros Hparse Hfams. unfold Parse. rewrite Hparse.
  assert (H : Parse_families p fams slist = Some slist).
  { clear Hparse. induction Hfams as [|[name mf] fams Hmf _ IH]; [reflexivity|].
    simpl. destruct (matches _ _); [exact IH|].
    rewrite (Parse_metrics_nan _ _ _ _ _ Hmf). exact IH. }
  by rewrite H.
Qed.

End Props.

Import Demo.

Lemma C10_nan_is_skipped_witness :
  scalar_metric (MetricFamily_GetType gauge_family) gauge_nan PrimFloat.nan
  /\ scalar_metric (MetricFamily_GetType gauge_family) gauge_one PrimFloat.one
  /\ Parse_metric demo_parser "up" gauge_family gauge_nan [] = Some []
  /\ Parse_metric demo_parser "up" gauge_family gauge_one []
     = Some [("node_up", PrimFloat.one)].
Proof.
  assert (Hn : scalar_metric (MetricFamily_GetType gauge_family) gauge_nan PrimFloat.nan).
  { exact (gauge_metric gauge_nan (mkGauge (Some PrimFloat.nan)) eq_refl). }
  assert (Ho : scalar_metric (MetricFamily_GetType gauge_family) gauge_one PrimFloat.one).
  { exact (gauge_metric gauge_one (mkGauge (Some PrimFloat.one)) eq_refl). }
  split; [exact Hn|]. split; [exact Ho|]. split.
  - exact (proj2 (proj2 (C10_nan_is_skipped demo_parser "up" gauge_family
                           gauge_nan PrimFloat.nan ∅ [] Hn))).
  - exact (proj2 (proj2 (C10_nan_is_skipped demo_parser "up" gauge_family
                           gauge_one PrimFloat.one ∅ [] Ho))).
Defined.

End PrometheusProps.


(** * The stream strategy under any behaviour of the sink *)

Module SenderMore.
Import Sender SenderProps.

Section Props.

Context {R : Runtime}.
Implicit Types (send : Sink) (m : Message) (w : World) (rs : list (option error)).

Lemma reply_log_fatal (r : option error) : is_fatal r = true -> reply_log r = None.
Proof. destruct r as [e|]; simpl; [|done]. by intros ->. Qed.

Lemma reply_log_nonfatal (r : option error) :
  is_fatal r = false -> reply_log r = log_line <$> r.
Proof. destruct r as [e|]; simpl; [|done]. by intros ->. Qed.

Lemma accepted_le rs : (accepted rs <= length rs)%nat.
Proof. induction rs as [|r rs IH]; simpl; [lia|]. destruct (is_fatal r); simpl; lia. Qed.

Lemma accepted_nonfatal rs :
  Forall (fun r => is_fatal r = false) (take (accepted rs) rs).
Proof.
  induction rs as [|r rs IH]; simpl; [constructor|].
  destruct (is_fatal r) eqn:Hr; simpl; [constructor|]. by constructor.
Qed.

Lemma adds_before_forward m (env : Env) (r : option error) :
  map fst (adds (before_forward m env r)) = from_option (fun s => [s]) [] (origin_stats m).
Proof.
  unfold before_forward, origin_stats. rewrite adds_app.
  destruct (MsgOrigin m), (reply_log r); reflexivity.
Qed.

(** The whole run of the loop on an open output channel, for any sink. *)
Lemma for_range_run send msgs w :
  ch_closed (w_output w) = false ->
  let rs := sink_replies send (map Content msgs) (w_env w) in
  exists w',
    for_range (Send_body send) msgs w =
      Done (if existsb is_fatal rs then Return else Next) w'
    /\ ch_closed (w_output w') = false
    /\ ch_buf (w_output w') = ch_buf (w_output w) ++ take (accepted rs) msgs
    /\ sink_calls (w_trace w') =
         sink_calls (w_trace w) ++ map Content (take (attempted rs) msgs)
    /\ logs (w_trace w') = logs (w_trace w) ++ omap reply_log (take (accepted rs) rs)
    /\ map fst (adds (w_trace w')) =
         map fst (adds (w_trace w)) ++ omap origin_stats (take (attempted rs) msgs).
Proof.
  revert w. induction msgs as [|m msgs IH]; intros w Hopen rs.
  - exists w. subst rs. simpl. rewrite !app_nil_r. done.
  - subst rs. rewrite map_cons, sink_replies_cons.
    rewrite for_range_cons, Send_body_eq. cbv zeta.
    unfold attempted. simpl existsb. simpl accepted.
    destruct (is_fatal (send (Content m) (w_env w)).1) eqn:Hf; simpl orb.
    + eexists. split; [reflexivity|]. simpl.
      rewrite !sink_calls_app, !logs_app, !adds_app, !map_app, !app_nil_r.
      rewrite adds_before_forward. unfold before_forward.
      rewrite sink_calls_app, logs_app, (reply_log_fatal _ Hf).
      destruct (MsgOrigin m) eqn:Ho; unfold origin_stats; rewrite Ho;
        simpl; rewrite ?app_nil_r; done.
    + rewrite Hopen.
      match goal with
      | |- context [for_range _ _ ?w1] =>
          destruct (IH w1) as (w' & Hrun & Hcl & Hbuf & Hcalls & Hlogs & Hadds);
          [done|]
      end.
      simpl in Hrun, Hbuf, Hcalls, Hlogs, Hadds.
      exists w'. split; [exact Hrun|]. split; [exact Hcl|].
      rewrite Hbuf, Hcalls, Hlogs, Hadds. unfold attempted.
      rewrite !sink_calls_app, !logs_app, !adds_app, !map_app.
      rewrite adds_before_forward. unfold before_forward.
      rewrite !sink_calls_app, !logs_app.
      destruct (existsb _ _); simpl take; simpl omap;
        destruct (MsgOrigin m) eqn:Ho; unfold origin_stats; rewrite ?Ho;
        destruct (reply_log _); simpl; rewrite ?app_nil_r, <- ?app_assoc; done.
Qed.

(** X1 (what is delivered, for any sink).  On an open output channel
    [Send] returns, and with [n] the number of replies of the sink before
    its first fatal one: the output has received the first [n] messages of
    the input, in order, and the sink has been handed the payloads of
    those messages and, when there is a fatal reply, of the message that
    got it, each once and unchanged. *)
Theorem Send_any_sink send msgs w :
  ch_closed (w_output w) = false ->
  let rs := sink_replies send (map Content msgs) (w_env w) in
  exists w',
    Send msgs send w = Done tt w'
    /\ ch_buf (w_output w') = ch_buf (w_output w) ++ take (accepted rs) msgs
    /\ sink_calls (w_trace w') =
         sink_calls (w_trace w) ++ map Content (take (attempted rs) msgs).
Proof.
  intros Hopen rs.
  destruct (for_range_run send msgs w Hopen) as (w' & Hrun & _ & Hbuf & Hcalls & _).
  exists w'. rewrite Send_eq, Hrun. done.
Qed.

(** X2 (what is logged).  On an open output channel [Send] logs one
    line for each error that the sink returns before its first fatal
    reply, in the order of the messages, and nothing else: nothing for a
    success and nothing for the fatal error on which it returns. *)
Theorem Send_logs send msgs w :
  ch_closed (w_output w) = false ->
  let rs := sink_replies send (map Content msgs) (w_env w) in
  logs (w_trace (res_world (Send msgs send w))) =
  logs (w_trace w) ++ omap (fmap log_line) (take (accepted rs) rs).
Proof.
  intros Hopen rs.
  destruct (for_range_run send msgs w Hopen) as (w' & Hrun & _ & _ & _ & Hlogs & _).
  rewrite Send_eq, Hrun. simpl. rewrite Hlogs. f_equal.
  fold rs. generalize (accepted_nonfatal rs).
  generalize (take (accepted rs) rs). intros l Hl.
  induction Hl as [|r l Hr _ IH]; [reflexivity|].
  csimpl. rewrite IH, (reply_log_nonfatal r Hr). reflexivity.
Qed.

(** X3 (which latencies are reported).  On an open output channel, the
    aggregators on which [Send] calls [Add] are, in order, those of the
    origins of the messages it handed to the sink, the one that got the
    fatal reply included; messages without origin and messages after the
    fatal reply account for no call. *)
Theorem Send_latency_reports send msgs w :
  ch_closed (w_output w) = false ->
  let rs := sink_replies send (map Content msgs) (w_env w) in
  map fst (adds (w_trace (res_world (Send msgs send w)))) =
  map fst (adds (w_trace w)) ++ omap origin_stats (take (attempted rs) msgs).
Proof.
  intros Hopen rs.
  destruct (for_range_run send msgs w Hopen) as (w' & Hrun & _ & _ & _ & _ & Hadds).
  rewrite Send_eq, Hrun. exact Hadds.
Qed.

(** X4 (a closed output channel).  When the output channel is closed,
    [Send] on a non-empty input still calls the sink on the first message.
    If the reply is fatal it returns as usual; otherwise it panics on the
    write to the channel, the payload having gone to the sink already, and
    no further message is looked at. *)
Theorem Send_closed_output send m rest w :
  ch_closed (w_output w) = true ->
  let r := (send (Content m) (w_env w)).1 in
  let w' := mkWorld (send (Content m) (w_env w)).2 (w_output w)
                    (w_trace w ++ before_forward m (w_env w) r) in
  Send (m :: rest) send w =
    (if is_fatal r then Done tt w' else Panic "send on closed channel" w')
  /\ sink_calls (w_trace w') = sink_calls (w_trace w) ++ [Content m].
Proof.
  intros Hcl r w'. split.
  - rewrite Send_eq, for_range_cons, Send_body_eq. cbv zeta. fold r. rewrite Hcl.
    destruct (is_fatal r); reflexivity.
  - subst w'. simpl. rewrite sink_calls_app. unfold before_forward.
    rewrite sink_calls_app. destruct (MsgOrigin m), (reply_log r); reflexivity.
Qed.

(** X5 (sending in two goes).  On an open output channel, when the sink
    gives no fatal reply on the messages of [pre], [Send] on [pre]
    followed by [Send] on [post] does what one [Send] on [pre ++ post]
    does. *)
Theorem Send_app send pre post w :
  ch_closed (w_output w) = false ->
  Forall (fun r => is_fatal r = false)
         (sink_replies send (map Content pre) (w_env w)) ->
  bind (Send pre send) (fun _ => Send post send) w = Send (pre ++ post) send w.
Proof.
  intros Hopen Hok.
  destruct (for_range_nonfatal send pre w Hopen Hok) as (w1 & Hrun & _).
  unfold bind at 1. rewrite (Send_eq pre), Hrun.
  rewrite (Send_eq (pre ++ post)), for_range_app, Hrun. apply Send_eq.
Qed.

End Props.

Import Demo.

Lemma Send_any_sink_witness :
  ch_closed (w_output w0) = false
  /\ exists w',
      Send [msg1; msg2; msg3] (sink_fail_at 1 Canceled) w0 = Done tt w'
      /\ ch_buf (w_output w') = [msg1]
      /\ sink_calls (w_trace w') = [[x61]; [x62]].
Proof.
  split; [reflexivity|].
  exact (Send_any_sink (sink_fail_at 1 Canceled) [msg1; msg2; msg3] w0 eq_refl).
Defined.

Lemma Send_logs_witness :
  ch_closed (w_output w0) = false
  /\ logs (w_trace (res_world (Send [msg1; msg2; msg3] (sink_fail_at 1 Timeout) w0)))
     = [log_line Timeout].
Proof.
  split; [reflexivity|].
  exact (Send_logs (sink_fail_at 1 Timeout) [msg1; msg2; msg3] w0 eq_refl).
Defined.

Lemma Send_latency_reports_witness :
  ch_closed (w_output w0) = false
  /\ map fst (adds (w_trace (res_world
        (Send [msg1; msg2; msg3; msg3] (sink_fail_at 2 Canceled) w0))))
     = [7%nat; 7%nat].
Proof.
  split; [reflexivity|].
  exact (Send_latency_reports (sink_fail_at 2 Canceled) [msg1; msg2; msg3; msg3] w0 eq_refl).
Defined.

Lemma Send_closed_output_witness :
  ch_closed (w_output w_closed) = true
  /\ Send [msg1; msg2] sink_ok w_closed =
     Panic "send on closed channel"
           (mkWorld (1%nat : Env) (mkChan [] true) [EvAdd 7 40; EvSink [x61] None]).
Proof.
  split; [reflexivity|].
  exact (proj1 (Send_closed_output sink_ok msg1 [msg2] w_closed eq_refl)).
Defined.

Lemma Send_app_witness :
  ch_closed (w_output w0) = false
  /\ Forall (fun r => is_fatal r = false)
            (sink_replies (sink_fail_at 0 Timeout) (map Content [msg1; msg2]) (w_env w0))
  /\ bind (Send [msg1; msg2] (sink_fail_at 0 Timeout))
          (fun _ => Send [msg3] (sink_fail_at 0 Timeout)) w0
     = Send ([msg1; msg2] ++ [msg3]) (sink_fail_at 0 Timeout) w0.
Proof.
  assert (H : Forall (fun r : option error => is_fatal r = false)
                (sink_replies (sink_fail_at 0 Timeout) (map Content [msg1; msg2]) (w_env w0))).
  { repeat constructor. }
  split; [reflexivity|]. split; [exact H|].
  exact (Send_app (sink_fail_at 0 Timeout) [msg1; msg2] [msg3] w0 eq_refl H).
Defined.

End SenderMore.

(** * The parser beyond scalar values *)

Module PrometheusMore.
Import Prometheus.

Section Props.

Context {X : Externals}.
Implicit Types (p : Parser) (m : Metric) (mf : MetricFamily) (slist : SampleList).
Implicit Types (k v : string) (result : gmap string string).

(** ** Labels *)

Lemma map_fold_insert_union (d result : gmap string string) :
  map_fold (fun key value result => <[key := value]> result) result d = d ∪ result.
Proof.
  apply (map_fold_weak_ind (fun r d => r = d ∪ result)).
  - by rewrite (left_id_L ∅ (∪)).
  - intros i x d' r _ ->. by rewrite insert_union_l.
Qed.

Lemma makeLabels_eq p m :
  makeLabels p m = DefaultTags p ∪ fold_left (add_label p) (Metric_Label m) ∅.
Proof. unfold makeLabels. apply map_fold_insert_union. Qed.

Lemma add_labels_ignored p ls result k :
  matches (IgnoreLabelKeysFilter p) k = true ->
  fold_left (add_label p) ls result !! k = result !! k.
Proof.
  intros Hk. revert result. induction ls as [|lp ls IH]; intros result; [done|].
  simpl. rewrite IH. unfold add_label.
  destruct (matches _ (LabelPair_GetName lp)) eqn:Hlp; [done|].
  apply lookup_insert_ne. congruence.
Qed.

Lemma add_labels_origin p ls result k v :
  fold_left (add_label p) ls result !! k = Some v ->
  result !! k = Some v
  \/ exists lp, lp ∈ ls /\ LabelPair_GetName lp = k /\ LabelPair_GetValue lp = v
                /\ matches (IgnoreLabelKeysFilter p) k = false.
Proof.
  revert result. induction ls as [|lp ls IH]; intros result; [by left|].
  simpl. intros H. apply IH in H as [H|(lp' & Hin & Hn & Hv & Hm)].
  - unfold add_label in H.
    destruct (matches _ (LabelPair_GetName lp)) eqn:Hlp; [by left|].
    destruct (decide (LabelPair_GetName lp = k)) as [<-|Hne].
    + rewrite lookup_insert_eq in H. injection H as <-.
      right. exists lp. split; [left|done].
    + rewrite lookup_insert_ne in H by done. by left.
  - right. exists lp'. split; [by right|done].
Qed.

(** X6 (default tags win).  A key of the default tags of the parser
    has, in the labels made for any metric, the value the default tags
    give it, whatever the metric says about that key. *)
Theorem makeLabels_default_wins p m k v :
  DefaultTags p !! k = Some v ->
  makeLabels p m !! k = Some v.
Proof. intros H. rewrite makeLabels_eq. by apply lookup_union_Some_l. Qed.

(** X7 (ignored label keys).  A label key matched by the filter of
    ignored label keys never comes from the metric: in the labels made it
    is bound exactly as in the default tags. *)
Theorem makeLabels_ignored_key p m k :
  matches (IgnoreLabelKeysFilter p) k = true ->
  makeLabels p m !! k = DefaultTags p !! k.
Proof.
  intros H. rewrite makeLabels_eq, lookup_union, (add_labels_ignored p _ _ k H).
  rewrite lookup_empty. by destruct (DefaultTags p !! k).
Qed.

(** X8 (where labels come from).  Every binding of the labels made for
    a metric is a default tag or the name and value of a label of the
    metric whose name is not ignored: no label is invented. *)
Theorem makeLabels_origin p m k v :
  makeLabels p m !! k = Some v ->
  DefaultTags p !! k = Some v
  \/ exists lp, lp ∈ Metric_Label m /\ LabelPair_GetName lp = k
                /\ LabelPair_GetValue lp = v
                /\ matches (IgnoreLabelKeysFilter p) k = false.
Proof.
  rewrite makeLabels_eq. intros H.
  apply lookup_union_Some_raw in H as [H|[_ H]]; [by left|].
  apply add_labels_origin in H as [H|H]; [|by right].
  by rewrite lookup_empty in H.
Qed.

(** X9 (a label given twice).  When the labels of a metric end with a
    label whose name is neither ignored nor a default tag, that name is
    bound to the value of this last label, also when earlier labels of
    the metric have the same name. *)
Theorem makeLabels_last_wins p m ls lp :
  Metric_Label m = ls ++ [lp] ->
  matches (IgnoreLabelKeysFilter p) (LabelPair_GetName lp) = false ->
  DefaultTags p !! LabelPair_GetName lp = None ->
  makeLabels p m !! LabelPair_GetName lp = Some (LabelPair_GetValue lp).
Proof.
  intros Hls Hm Hd. rewrite makeLabels_eq, lookup_union_r by done.
  rewrite Hls, fold_left_app. simpl. unfold add_label at 1. rewrite Hm.
  apply lookup_insert_eq.
Qed.

(** ** Scalar values of any metric *)

(** X10 (at most one sample, never NaN).  For any metric whatsoever,
    [getNameAndValue] returns the empty map or one field, named
    [metricName], whose value is not NaN; accordingly [handleGaugeCounter]
    leaves the sample list as it is or pushes one sample, built from that
    name and a value that is not NaN. *)
Theorem handleGaugeCounter_at_most_one p m tags metricName slist :
  (getNameAndValue m metricName = ∅
   /\ handleGaugeCounter p m tags metricName slist = slist)
  \/ exists v : float64,
       PrimFloat.is_nan v = false
       /\ getNameAndValue m metricName = {[metricName := v]}
       /\ handleGaugeCounter p m tags metricName slist
          = PushFront (scalar_sample p tags metricName v) slist.
Proof.
  assert (H : getNameAndValue m metricName = ∅
              \/ exists v : float64, PrimFloat.is_nan v = false
                   /\ getNameAndValue m metricName = {[metricName := v]}).
  { unfold getNameAndValue.
    destruct (Metric_Gauge m) as [g|]; [|destruct (Metric_Counter m) as [c|];
      [|destruct (Metric_Untyped m) as [u|]; [|by left]]].
    all: match goal with |- context [PrimFloat.is_nan ?v] =>
           destruct (PrimFloat.is_nan v) eqn:Hv; simpl; [by left|];
           right; exists v; by rewrite insert_empty end. }
  unfold handleGaugeCounter.
  destruct H as [->|(v & Hv & ->)]; [left|right].
  - split; [done|]. apply map_fold_empty.
  - exists v. split; [done|]. split; [done|].
    rewrite map_fold_singleton. unfold scalar_sample.
    destruct (HasPrefix metricName (NamePrefix p)); reflexivity.
Qed.

(** X11 (metrics without a scalar value).  In a family that is neither
    a summary nor a histogram, such as a gauge histogram, metrics that
    carry no gauge, counter or untyped value go through [Parse] without a
    sample and without a panic: the sample list is left as it is. *)
Theorem Parse_metrics_valueless p metricName mf ms slist :
  MetricFamily_GetType mf <> MetricType_SUMMARY ->
  MetricFamily_GetType mf <> MetricType_HISTOGRAM ->
  Forall valueless ms ->
  Parse_metrics p metricName mf ms slist = Some slist.
Proof.
  intros Hs Hh Hms. induction Hms as [|m ms (Hg & Hc & Hu) _ IH]; [reflexivity|].
  simpl. unfold Parse_metric.
  destruct (decide (_ = MetricType_SUMMARY)); [done|].
  destruct (decide (_ = MetricType_HISTOGRAM)); [done|].
  simpl. unfold handleGaugeCounter, getNameAndValue. rewrite Hg, Hc, Hu.
  rewrite map_fold_empty. exact IH.
Qed.

(** ** Summaries and histograms *)

Lemma fold_left_snoc_map {A B} (f : A -> B) (l : list A) (init : list B) :
  fold_left (fun acc x => acc ++ [f x]) l init = init ++ map f l.
Proof.
  revert init. induction l as [|x l IH]; intros init; simpl.
  - by rewrite app_nil_r.
  - by rewrite IH, <- app_assoc.
Qed.

(** X12 (the samples of a summary).  On a metric that carries a summary,
    [HandleSummary] hands to [PushFrontN], in one call, the sample of the
    count, the sample of the sum and then one sample per quantile in the
    order of the summary, each quantile sample labelled with its
    quantile; the names get the prefix of the parser unless the metric
    name starts with it.  On a metric without summary it panics. *)
Theorem HandleSummary_samples p m tags metricName slist :
  let namePrefix := if HasPrefix metricName (NamePrefix p) then "" else NamePrefix p in
  HandleSummary p m tags metricName slist =
  s ← Metric_Summary m;
  Some (PushFrontN
          (NewSample "" (BuildMetric [namePrefix; metricName; "count"])
                     (float64_of_uint64 (Summary_GetSampleCount s)) [tags]
           :: NewSample "" (BuildMetric [namePrefix; metricName; "sum"])
                        (Summary_GetSampleSum s) [tags]
           :: map (fun q =>
                     NewSample "" (BuildMetric [namePrefix; metricName; "quantile"])
                               (Quantile_GetValue q)
                               [tags; {["quantile" := Sprint (Quantile_GetQuantile q)]}])
                  (Summary_Quantile s))
          slist).
Proof.
  unfold HandleSummary. destruct (Metric_Summary m) as [s|]; [|reflexivity].
  simpl. rewrite fold_left_snoc_map.
  destruct (HasPrefix metricName (NamePrefix p)); reflexivity.
Qed.

(** X13 (the samples of a histogram).  On a metric that carries a
    histogram, [HandleHistogram] hands to [PushFrontN], in one call, the
    sample of the count, the sample of the sum, a bucket sample labelled
    [le = +Inf] whose value is the count, and then one bucket sample per
    bucket in the order of the histogram, labelled with its upper bound
    and valued with its cumulative count.  On a metric without histogram
    it panics. *)
Theorem HandleHistogram_samples p m tags metricName slist :
  let namePrefix := if HasPrefix metricName (NamePrefix p) then "" else NamePrefix p in
  HandleHistogram p m tags metricName slist =
  h ← Metric_Histogram m;
  Some (PushFrontN
          (NewSample "" (BuildMetric [namePrefix; metricName; "count"])
                     (float64_of_uint64 (Histogram_GetSampleCount h)) [tags]
           :: NewSample "" (BuildMetric [namePrefix; metricName; "sum"])
                        (Histogram_GetSampleSum h) [tags]
           :: NewSample "" (BuildMetric [namePrefix; metricName; "bucket"])
                        (float64_of_uint64 (Histogram_GetSampleCount h))
                        [tags; {["le" := "+Inf"]}]
           :: map (fun b =>
                     NewSample "" (BuildMetric [namePrefix; metricName; "bucket"])
                               (float64_of_uint64 (Bucket_GetCumulativeCount b))
                               [tags; {["le" := Sprint (Bucket_GetUpperBound b)]}])
                  (Histogram_Bucket h))
          slist).
Proof.
  unfold HandleHistogram. destruct (Metric_Histogram m) as [h|]; [|reflexivity].
  simpl. rewrite fold_left_snoc_map.
  destruct (HasPrefix metricName (NamePrefix p)); reflexivity.
Qed.

(** X14 (when the step of [Parse] panics).  The step of [Parse] on a
    metric panics exactly when the family is a summary and the metric
    carries no summary, or the family is a histogram and the metric
    carries no histogram. *)
Theorem Parse_metric_panics p metricName mf m slist :
  Parse_metric p metricName mf m slist = None <->
  (MetricFamily_GetType mf = MetricType_SUMMARY /\ Metric_Summary m = None)
  \/ (MetricFamily_GetType mf = MetricType_HISTOGRAM /\ Metric_Histogram m = None).
Proof.
  unfold Parse_metric, HandleSummary, HandleHistogram.
  destruct (decide (_ = MetricType_SUMMARY)) as [Hs|Hs];
    [|destruct (decide (_ = MetricType_HISTOGRAM)) as [Hh|Hh]].
  - destruct (Metric_Summary m) eqn:Hm; simpl; split;
      try discriminate; intuition congruence.
  - destruct (Metric_Histogram m) eqn:Hm; simpl; split;
      try discriminate; intuition congruence.
  - split; [discriminate|intuition congruence].
Qed.

(** ** Whole dumps *)

(** X15 (errors of [Parse]).  [Parse] returns an error exactly when
    [util.Parse] fails on the buffer; the error is the one of
    [util.Parse] and the sample list is left as it is. *)
Theorem Parse_error p buf slist e slist' :
  Parse p buf slist = Some (Some e, slist') <->
  util_Parse buf (ParserHeader p) = inl e /\ slist' = slist.
Proof.
  unfold Parse. destruct (util_Parse buf (ParserHeader p)) as [e'|fams].
  - split; [intros [= -> ->]|intros [[= ->] ->]]; done.
  - destruct (Parse_families p fams slist); simpl; split; try done.
    all: by intros [? _].
Qed.

(** X16 (ignored families).  Families whose name matches the filter of
    ignored metrics do not count: [Parse] does on a dump what it does on
    the dump without them, also when their metrics would make it
    panic. *)
Theorem Parse_families_ignored p fams slist :
  Parse_families p fams slist =
  Parse_families p
    (List.filter (fun nmf => negb (matches (IgnoreMetricsFilter p) nmf.1)) fams)
    slist.
Proof.
  revert slist. induction fams as [|[name mf] fams IH]; intros slist; [reflexivity|].
  simpl. destruct (matches (IgnoreMetricsFilter p) name) eqn:Hm; simpl.
  - apply IH.
  - rewrite Hm. destruct (Parse_metrics _ _ _ _ _); simpl; [apply IH|reflexivity].
Qed.

Lemma Parse_metrics_well_typed p metricName mf ms slist :
  Forall (well_typed mf) ms ->
  is_Some (Parse_metrics p metricName mf ms slist).
Proof.
  intros Hms. revert slist.
  induction Hms as [|m ms [Hs Hh] _ IH]; intros slist; [by eexists|].
  simpl. unfold Parse_metric, HandleSummary, HandleHistogram.
  destruct (decide (_ = MetricType_SUMMARY)) as [Es|Es];
    [|destruct (decide (_ = MetricType_HISTOGRAM)) as [Eh|Eh]].
  - destruct (Hs Es) as [s ->]. simpl. apply IH.
  - destruct (Hh Eh) as [h ->]. simpl. apply IH.
  - simpl. apply IH.
Qed.

(** X18 (a dump of NaN values).  When [util.Parse] succeeds and every
    metric of every family is a gauge, counter or untyped metric whose
    value is NaN, [Parse] returns a [nil] error and leaves the sample list
    as it is. *)
Theorem Parse_all_nan p buf fams slist :
  util_Parse buf (ParserHeader p) = inr fams ->
  Forall (fun nmf : string * MetricFamily =>
            Forall (fun m => exists v : float64,
                        scalar_metric (MetricFamily_GetType nmf.2) m v
                        /\ PrimFloat.is_nan v = true)
                   (MetricFamily_Metric nmf.2)) fams ->
  Parse p buf slist = Some (None, slist).
Proof.
  intros Hparse Hfams. unfold Parse. rewrite Hparse. clear Hparse.
  assert (H : Parse_families p fams slist = Some slist).
  { induction Hfams as [|[name mf] fams Hmf _ IH]; [reflexivity|].
    simpl. destruct (matches _ _); [exact IH|].
    rewrite (PrometheusProps.Parse_metrics_nan _ _ _ _ _ Hmf). exact IH. }
  by rewrite H.
Qed.

(** X17 (no panic on well-formed dumps).  When [util.Parse] succeeds and,
    in every family that is not ignored, the metrics of a summary family
    carry a summary and those of a histogram family a histogram, [Parse]
    returns, and returns a [nil] error. *)
Theorem Parse_well_typed p buf fams slist :
  util_Parse buf (ParserHeader p) = inr fams ->
  Forall (fun nmf : string * MetricFamily =>
            matches (IgnoreMetricsFilter p) nmf.1 = false ->
            Forall (well_typed nmf.2) (MetricFamily_Metric nmf.2)) fams ->
  exists slist', Parse p buf slist = Some (None, slist').
Proof.
  intros Hparse Hfams. unfold Parse. rewrite Hparse. clear Hparse.
  assert (H : is_Some (Parse_families p fams slist)).
  { revert slist. induction Hfams as [|[name mf] fams Hmf _ IH]; intros slist;
      [by eexists|].
    simpl. destruct (matches _ name) eqn:Hm; [apply IH|].
    destruct (Parse_metrics_well_typed p name mf (MetricFamily_Metric mf) slist
                (Hmf Hm)) as [sl ->].
    simpl. apply IH. }
  destruct H as [sl ->]. by exists sl.
Qed.

End Props.

Import Demo.

Lemma Parse_well_typed_witness :
  @util_Parse dump_externals [x75] (ParserHeader plain_parser) = inr dump
  /\ exists slist', @Parse dump_externals plain_parser [x75] [] = Some (None, slist').
Proof.
  assert (H : @util_Parse dump_externals [x75] (ParserHeader plain_parser) = inr dump)
    by reflexivity.
  split; [exact H|].
  apply (@Parse_well_typed dump_externals plain_parser [x75] dump [] H).
  repeat constructor; simpl; intros; try discriminate; by eexists.
Defined.

Lemma Parse_all_nan_witness :
  @util_Parse dump_externals [x00] (ParserHeader plain_parser) = inr nan_dump
  /\ @Parse dump_externals plain_parser [x00] [] = Some (None, []).
Proof.
  assert (H : @util_Parse dump_externals [x00] (ParserHeader plain_parser) = inr nan_dump)
    by reflexivity.
  split; [exact H|].
  apply (@Parse_all_nan dump_externals plain_parser [x00] nan_dump [] H).
  repeat constructor. exists PrimFloat.nan. split; [|reflexivity].
  exact (gauge_metric gauge_nan (mkGauge (Some PrimFloat.nan)) eq_refl).
Defined.

Lemma makeLabels_default_wins_witness :
  DefaultTags tagging_parser !! "env" = Some "prod"
  /\ makeLabels tagging_parser labelled !! "env" = Some "prod".
Proof.
  assert (H : DefaultTags tagging_parser !! "env" = Some "prod") by reflexivity.
  split; [exact H|].
  exact (makeLabels_default_wins tagging_parser labelled "env" "prod" H).
Defined.

Lemma makeLabels_ignored_key_witness :
  matches (IgnoreLabelKeysFilter tagging_parser) "secret" = true
  /\ makeLabels tagging_parser labelled !! "secret" = None.
Proof.
  split; [reflexivity|].
  exact (makeLabels_ignored_key tagging_parser labelled "secret" eq_refl).
Defined.

Lemma makeLabels_origin_witness :
  makeLabels tagging_parser labelled !! "job" = Some "b"
  /\ (DefaultTags tagging_parser !! "job" = Some "b"
      \/ exists lp, lp ∈ Metric_Label labelled /\ LabelPair_GetName lp = "job"
                    /\ LabelPair_GetValue lp = "b"
                    /\ matches (IgnoreLabelKeysFilter tagging_parser) "job" = false).
Proof.
  assert (H : makeLabels tagging_parser labelled !! "job" = Some "b") by reflexivity.
  split; [exact H|].
  exact (makeLabels_origin tagging_parser labelled "job" "b" H).
Defined.

Lemma makeLabels_last_wins_witness :
  Metric_Label labelled =
    [mkLabelPair (Some "env") (Some "dev"); mkLabelPair (Some "secret") (Some "x");
     mkLabelPair (Some "job") (Some "a")] ++ [mkLabelPair (Some "job") (Some "b")]
  /\ makeLabels tagging_parser labelled !! "job" = Some "b".
Proof.
  split; [reflexivity|].
  exact (makeLabels_last_wins tagging_parser labelled
           [mkLabelPair (Some "env") (Some "dev"); mkLabelPair (Some "secret") (Some "x");
            mkLabelPair (Some "job") (Some "a")]
           (mkLabelPair (Some "job") (Some "b")) eq_refl eq_refl eq_refl).
Defined.

Lemma Parse_metrics_valueless_witness :
  MetricFamily_GetType gauge_histogram_family <> MetricType_SUMMARY
  /\ MetricFamily_GetType gauge_histogram_family <> MetricType_HISTOGRAM
  /\ Forall valueless (MetricFamily_Metric gauge_histogram_family)
  /\ Parse_metrics demo_parser "lat" gauge_histogram_family
       (MetricFamily_Metric gauge_histogram_family) [] = Some [].
Proof.
  assert (Hs : MetricFamily_GetType gauge_histogram_family <> MetricType_SUMMARY)
    by discriminate.
  assert (Hh : MetricFamily_GetType gauge_histogram_family <> MetricType_HISTOGRAM)
    by discriminate.
  assert (Hv : Forall valueless (MetricFamily_Metric gauge_histogram_family)).
  { repeat constructor. }
  split; [exact Hs|]. split; [exact Hh|]. split; [exact Hv|].
  exact (Parse_metrics_valueless demo_parser "lat" gauge_histogram_family
           (MetricFamily_Metric gauge_histogram_family) [] Hs Hh Hv).
Defined.

End PrometheusMore.
